(** * ShaderTypes: the CPU/GPU shared data contracts of the renderer

    A shallow embedding of [Sources/Renderer/ShaderTypes.h].  The header
    declares five plain structs over [float] and the vector and matrix
    types of [<simd/simd.h>]; it has no functions.  What the header fixes
    is the declaration order and the types of the fields, and through the
    C struct layout rule the byte offset of each field and the size of each
    record. *)

From Stdlib Require Import List String Arith Lia Bool ZArith QArith Qcanon Permutation.
Import ListNotations.
Local Open Scope string_scope.
Local Open Scope nat_scope.

(** ** Field types *)

(** The four types the header's fields have. *)
Inductive ctype : Type :=
| Float          (* float *)
| SimdFloat2     (* simd_float2 *)
| SimdFloat3     (* simd_float3 *)
| SimdFloat4x4.  (* simd_float4x4 *)

Definition ctype_eqb (a b : ctype) : bool :=
  match a, b with
  | Float, Float | SimdFloat2, SimdFloat2
  | SimdFloat3, SimdFloat3 | SimdFloat4x4, SimdFloat4x4 => true
  | _, _ => false
  end.

(** The number of [float] components a value of the type carries
    ("3 floats" for a [simd_float3], a 4x4 matrix of floats). *)
Definition lanes (t : ctype) : nat :=
  match t with
  | Float => 1
  | SimdFloat2 => 2
  | SimdFloat3 => 3
  | SimdFloat4x4 => 16
  end.

(** A struct member: its name and its type, as declared. *)
Record field : Type := Field { fname : string; ftype : ctype }.

(** A struct: its tag and its members in declaration order. *)
Record struct : Type := Struct { sname : string; members : list field }.

(** ** The header, struct by struct *)

Definition SceneVertex : struct :=
  Struct "SceneVertex"
    [ Field "position" SimdFloat3;
      Field "normal"   SimdFloat3;
      Field "texCoord" SimdFloat2 ].

Definition SceneUniforms : struct :=
  Struct "SceneUniforms"
    [ Field "modelMatrix"       SimdFloat4x4;
      Field "viewMatrix"        SimdFloat4x4;
      Field "projectionMatrix"  SimdFloat4x4;
      Field "normalMatrix"      SimdFloat4x4;
      Field "lightPosition"     SimdFloat3;
      Field "ambientIntensity"  Float;
      Field "lightColor"        SimdFloat3;
      Field "diffuseIntensity"  Float;
      Field "cameraPosition"    SimdFloat3;
      Field "specularIntensity" Float;
      Field "specularPower"     Float;
      Field "padding1"          Float;
      Field "padding2"          Float;
      Field "padding3"          Float ].

Definition CRTUniforms : struct :=
  Struct "CRTUniforms"
    [ Field "time"                Float;
      Field "curvature"           Float;
      Field "scanlineIntensity"   Float;
      Field "scanlineCount"       Float;
      Field "glowIntensity"       Float;
      Field "vignetteStrength"    Float;
      Field "flickerAmount"       Float;
      Field "brightness"          Float;
      Field "resolution"          SimdFloat2;
      Field "greenTintR"          Float;
      Field "greenTintG"          Float;
      Field "greenTintB"          Float;
      Field "phosphorPersistence" Float;
      Field "noiseAmount"         Float;
      Field "padding"             Float ].

Definition QuadVertex : struct :=
  Struct "QuadVertex"
    [ Field "position" SimdFloat2;
      Field "texCoord" SimdFloat2 ].

Definition MaterialUniforms : struct :=
  Struct "MaterialUniforms"
    [ Field "baseColor" SimdFloat3;
      Field "roughness" Float;
      Field "metallic"  Float;
      Field "padding1"  Float;
      Field "padding2"  Float;
      Field "padding3"  Float ].

(** Every struct of the header, in the order of the file. *)
Definition ShaderTypes_h : list struct :=
  [ SceneVertex; SceneUniforms; CRTUniforms; QuadVertex; MaterialUniforms ].

(** ** Classifying structs and fields by their names *)

(** [ends_with suf s]: the string [s] ends with [suf]. *)
Definition ends_with (suf s : string) : bool :=
  let n := String.length s in
  let k := String.length suf in
  (k <=? n) && String.eqb (substring (n - k) k s) suf.

(** The header's comments split its structs into vertex data and uniforms;
    the tags carry the same split. *)
Definition is_vertex_format (s : struct) : bool := ends_with "Vertex" (sname s).
Definition is_uniform_record (s : struct) : bool := ends_with "Uniforms" (sname s).

Definition vertex_formats : list struct := filter is_vertex_format ShaderTypes_h.
Definition uniform_records : list struct := filter is_uniform_record ShaderTypes_h.

(** A member is explicit padding when its name starts with [padding]. *)
Definition is_padding (f : field) : bool := prefix "padding" (fname f).

(** The members that carry a value: those that are not explicit padding. *)
Definition semantic_fields (s : struct) : list field :=
  filter (fun f => negb (is_padding f)) (members s).

Definition padding_fields (s : struct) : list field :=
  filter is_padding (members s).

Definition field_names (fs : list field) : list string := map fname fs.

(** The shape of a struct as the data model words it: each member with its
    count of floats. *)
Definition shape (s : struct) : list (string * nat) :=
  map (fun f => (fname f, lanes (ftype f))) (members s).

(** ** Sizes, alignments and the struct layout rule *)

(** The header takes its vector types from [<simd/simd.h>], which is not
    part of the repository: the size and the alignment of each type are a
    parameter of the layout. *)
Record abi : Type := Abi { sizeof : ctype -> nat; alignof : ctype -> nat }.

(** The sizes and alignments [<simd/simd.h>] gives these types (clang
    extended vectors): a [simd_float2] is 8 bytes, 8-byte aligned; a
    [simd_float3] is padded to the size and the alignment of a
    [simd_float4], 16 bytes; a [simd_float4x4] is four [simd_float4]
    columns, 64 bytes, 16-byte aligned. *)
Definition simd_abi : abi :=
  Abi (fun t => match t with
                | Float => 4 | SimdFloat2 => 8
                | SimdFloat3 => 16 | SimdFloat4x4 => 64 end)
      (fun t => match t with
                | Float => 4 | SimdFloat2 => 8
                | SimdFloat3 => 16 | SimdFloat4x4 => 16 end).

(** The tightly packed reading, where a vector of [n] floats takes [4 * n]
    bytes and needs only the alignment of a float.  The header is not
    compiled this way; it is kept to compare byte counts against. *)
Definition packed_abi : abi :=
  Abi (fun t => 4 * lanes t) (fun _ => 4).

(** [align_up n a]: the least multiple of [a] that is at least [n]. *)
Definition align_up (n a : nat) : nat := ((n + a - 1) / a) * a.

Section Layout.
Variable A : abi.

(** Members are placed in declaration order, each at the first offset at
    or after the end of the previous one that its alignment divides. *)
Fixpoint layout_from (cur : nat) (fs : list field) : list (field * nat) :=
  match fs with
  | [] => []
  | f :: rest =>
      let o := align_up cur (alignof A (ftype f)) in
      (f, o) :: layout_from (o + sizeof A (ftype f)) rest
  end.

Definition layout (s : struct) : list (field * nat) :=
  layout_from 0 (members s).

(** The offset one past the last byte of the last member. *)
Fixpoint end_from (cur : nat) (fs : list field) : nat :=
  match fs with
  | [] => cur
  | f :: rest =>
      end_from (align_up cur (alignof A (ftype f)) + sizeof A (ftype f)) rest
  end.

Definition fields_end (fs : list field) : nat := end_from 0 fs.

(** A struct is as aligned as its most aligned member. *)
Definition struct_align (s : struct) : nat :=
  fold_right (fun f m => Nat.max (alignof A (ftype f)) m) 1 (members s).

(** [sizeof(struct)]: the end of the last member, rounded up to the
    alignment of the struct. *)
Definition struct_size (s : struct) : nat :=
  align_up (fields_end (members s)) (struct_align s).

(** The offset of a member, by name. *)
Definition offset_of (s : struct) (name : string) : option nat :=
  option_map snd
    (find (fun p => String.eqb (fname (fst p)) name) (layout s)).

(** The bytes of float data in a list of members. *)
Definition data_bytes (fs : list field) : nat :=
  list_sum (map (fun f => 4 * lanes (ftype f)) fs).

(** The sum of the members' own sizes, without the gaps between them. *)
Definition sum_sizes (fs : list field) : nat :=
  list_sum (map (fun f => sizeof A (ftype f)) fs).
End Layout.

(** The member declared right after the member called [name]. *)
Fixpoint next_member (fs : list field) (name : string) : option field :=
  match fs with
  | f :: ((g :: _) as rest) =>
      if String.eqb (fname f) name then Some g else next_member rest name
  | _ => None
  end.

Definition next_field (s : struct) (name : string) : option field :=
  next_member (members s) name.

(** The explicit padding a struct ends with: the names of the members
    declared after its last semantic member. *)
Fixpoint leading_padding (fs : list field) : list field :=
  match fs with
  | f :: rest => if is_padding f then f :: leading_padding rest else []
  | [] => []
  end.

Definition trailing_padding (s : struct) : list string :=
  field_names (rev (leading_padding (rev (members s)))).

(** A scalar intensity member: a [float] whose name ends in [Intensity]. *)
Definition is_intensity (f : field) : bool :=
  ctype_eqb (ftype f) Float && ends_with "Intensity" (fname f).

(** [vec3_then_aligned lay]: in the placed members [lay], whatever is
    declared right after a 3-component vector starts on a multiple of 16,
    past the vector's three floats. *)
Fixpoint vec3_then_aligned (lay : list (field * nat)) : bool :=
  match lay with
  | (f, o) :: (((_, o') :: _) as rest) =>
      (if ctype_eqb (ftype f) SimdFloat3
       then (o' mod 16 =? 0) && (o + 4 * lanes (ftype f) <? o')
       else true)
      && vec3_then_aligned rest
  | _ => true
  end.

(** ** The data model, as the specification lists it *)

Module DataModel.
(** The attribute lists of the data model table, in the order the table
    gives them, with the members' names. *)
Definition SceneVertex : list (string * nat) :=
  [ ("position", 3); ("normal", 3); ("texCoord", 2) ].

Definition QuadVertex : list (string * nat) :=
  [ ("position", 2); ("texCoord", 2) ].

Definition SceneUniforms : list string :=
  [ "modelMatrix"; "viewMatrix"; "projectionMatrix"; "normalMatrix";
    "lightPosition"; "lightColor";
    "ambientIntensity"; "diffuseIntensity"; "specularIntensity";
    "specularPower"; "cameraPosition" ].

Definition CRTUniforms : list string :=
  [ "time"; "curvature"; "scanlineIntensity"; "scanlineCount";
    "glowIntensity"; "vignetteStrength"; "flickerAmount"; "brightness";
    "resolution"; "greenTintR"; "greenTintG"; "greenTintB";
    "phosphorPersistence"; "noiseAmount" ].

Definition MaterialUniforms : list string :=
  [ "baseColor"; "roughness"; "metallic" ].

Definition attributes (tag : string) : list string :=
  if String.eqb tag "SceneUniforms" then SceneUniforms
  else if String.eqb tag "CRTUniforms" then CRTUniforms
  else if String.eqb tag "MaterialUniforms" then MaterialUniforms
  else if String.eqb tag "SceneVertex" then map fst SceneVertex
  else if String.eqb tag "QuadVertex" then map fst QuadVertex
  else [].
End DataModel.

(** ** Writing a record to bytes and reading it back *)

Module Wire.
Local Open Scope Z_scope.

(** A [float] travels as its 32-bit pattern; no arithmetic is done on
    it.  [le_bytes n w] are the [n] low bytes of [w], lowest first. *)
Fixpoint le_bytes (n : nat) (w : Z) : list Z :=
  match n with
  | O => []
  | S n' => w mod 256 :: le_bytes n' (w / 256)
  end.

Fixpoint le_word (bs : list Z) : Z :=
  match bs with
  | [] => 0
  | b :: rest => b + 256 * le_word rest
  end.

(** The value of one member: its float components, in order. *)
Definition fvalue : Type := list Z.

(** The value of a record: one [fvalue] per member, in declaration order. *)
Definition rvalue : Type := list fvalue.

Definition encode_lanes (v : fvalue) : list Z := flat_map (le_bytes 4) v.

Fixpoint decode_lanes (n : nat) (bs : list Z) : fvalue :=
  match n with
  | O => []
  | S n' => le_word (firstn 4 bs) :: decode_lanes n' (skipn 4 bs)
  end.

(** [write_at o bs buf]: [buf] with the bytes [bs] stored from offset [o]. *)
Definition write_at (o : nat) (bs buf : list Z) : list Z :=
  firstn o buf ++ bs ++ skipn (o + List.length bs) buf.

(** [read_at o n buf]: the [n] bytes of [buf] from offset [o]. *)
Definition read_at (o n : nat) (buf : list Z) : list Z :=
  firstn n (skipn o buf).

(** Every member's components in range and as many as its type has. *)
Definition field_typed (f : field) (v : fvalue) : Prop :=
  List.length v = lanes (ftype f) /\ Forall (fun w => 0 <= w < 2 ^ 32) v.

Definition well_typed (s : struct) (vs : rvalue) : Prop :=
  Forall2 field_typed (members s) vs.

(** Modelled from the spec: the decoder of one placed member, its
    components read from the bytes at its offset. *)
Definition decode_member (buf : list Z) (p : field * nat) : fvalue :=
  decode_lanes (lanes (ftype (fst p)))
    (read_at (snd p) (4 * lanes (ftype (fst p))) buf).

Section Serialise.
Variable A : abi.

(** Modelled from the spec: store each member's bytes at its offset. *)
Fixpoint store (lay : list (field * nat)) (vs : rvalue) (buf : list Z)
  : list Z :=
  match lay, vs with
  | (_, o) :: lay', v :: vs' => store lay' vs' (write_at o (encode_lanes v) buf)
  | _, _ => buf
  end.

(** Modelled from the spec: the host code that copies a uniform record
    into a GPU buffer is not in the header.  The record is written
    "through the fixed byte layout": a buffer of [sizeof] bytes, every
    member at the offset the layout gives it, padding bytes zero. *)
Definition serialize (s : struct) (vs : rvalue) : list Z :=
  store (layout A s) vs (repeat 0 (struct_size A s)).

(** Modelled from the spec: the consumer "reads the same bytes by
    offset": every member is decoded from the bytes at its offset. *)
Definition deserialize (s : struct) (buf : list Z) : rvalue :=
  map (decode_member buf) (layout A s).
End Serialise.

(** What the layout needs of the sizes and alignments: alignments are
    positive and a type is large enough for its components. *)
Definition abi_sane (A : abi) : Prop :=
  forall t, (0 < alignof A t)%nat /\ (4 * lanes t <= sizeof A t)%nat.

(** A monitor casing of base colour (0.5, 0.5, 0.5), roughness 1 and
    metallic 0, as the bit patterns of its floats. *)
Definition casing : rvalue :=
  [ [1056964608; 1056964608; 1056964608]; [1065353216]; [0]; [0]; [0]; [0] ].
End Wire.

(** ** The CRT post-process pass *)

Module CRTPostProcessor.
Local Open Scope Qc_scope.

(** Colours, coordinates and the uniforms' floats are exact rationals
    here: the statements below are about the shape of the pass, not about
    rounding. *)
Definition coord : Type := (Qc * Qc)%type.
Definition color : Type := (Qc * Qc * Qc)%type.

(** A texture, sampled at a normalized coordinate. *)
Definition texture : Type := coord -> color.

(** The values of a [CRTUniforms] record, member by member as the header
    declares them. *)
Record uniforms : Type := Uniforms {
  time : Qc;
  curvature : Qc;
  scanlineIntensity : Qc;
  scanlineCount : Qc;
  glowIntensity : Qc;
  vignetteStrength : Qc;
  flickerAmount : Qc;
  brightness : Qc;
  resolution : coord;
  greenTintR : Qc;
  greenTintG : Qc;
  greenTintB : Qc;
  phosphorPersistence : Qc;
  noiseAmount : Qc;
  padding : Qc
}.

(** Modelled from the spec: the header states no range for its members;
    these are the invariants the data model puts on a [CRTUniforms]
    record ([scanlineCount > 0], [phosphorPersistence] in [0, 1],
    [curvature >= 0]). *)
Definition valid (u : uniforms) : Prop :=
  0 < scanlineCount u
  /\ 0 <= phosphorPersistence u /\ phosphorPersistence u <= 1
  /\ 0 <= curvature u.

(** Modelled from the spec: the fragment program is not in the header and
    the specification leaves the exact curves of its stages to the
    implementation; they are parameters here, and every statement below
    holds for each choice of them. *)
Record curves : Type := Curves {
  bulge : Qc -> Qc;                  (* of the squared radius *)
  band : Qc -> Qc;                   (* of the row phase y * scanlineCount *)
  bloom : texture -> coord -> color; (* blurred bright regions *)
  falloff : Qc -> Qc;                (* of the squared distance to the centre *)
  wobble : Qc -> Qc;                 (* of time *)
  grain : coord -> Qc -> Qc          (* of pixel coordinate and time *)
}.

Definition half : Qc := Q2Qc (1 # 2).
Definition centre : coord := (half, half).
Definition black : color := (0, 0, 0).

Definition Qcleb (a b : Qc) : bool := Qle_bool a b.

Definition scale (a : Qc) (c : color) : color :=
  let '(r, g, b) := c in (a * r, a * g, a * b).

Definition plus (c d : color) : color :=
  let '(r, g, b) := c in let '(r', g', b') := d in (r + r', g + g', b + b').

Definition grey (a : Qc) : color := (a, a, a).

(** Modelled from the spec: the valid colour range is [0, 1] per
    channel. *)
Definition clamp01 (x : Qc) : Qc :=
  if Qcleb x 0 then 0 else if Qcleb 1 x then 1 else x.

Definition clamp (c : color) : color :=
  let '(r, g, b) := c in (clamp01 r, clamp01 g, clamp01 b).

(** The squared distance of a coordinate to the screen centre. *)
Definition radius2 (p : coord) : Qc :=
  (fst p - half) * (fst p - half) + (snd p - half) * (snd p - half).

(** Modelled from the spec: a coordinate is on screen when it lies in the
    unit square [0,1] x [0,1]. *)
Definition on_screen (p : coord) : bool :=
  Qcleb 0 (fst p) && Qcleb (fst p) 1 && Qcleb 0 (snd p) && Qcleb (snd p) 1.

(** Modelled from the spec: stage 6, multiply the RGB channels by
    ([greenTintR], [greenTintG], [greenTintB]). *)
Definition tint (u : uniforms) (c : color) : color :=
  let '(r, g, b) := c in (r * greenTintR u, g * greenTintG u, b * greenTintB u).

(** Modelled from the spec: a sample with only the tint (stage 6) and the
    brightness multiply (stage 10) applied. *)
Definition tinted_scaled (u : uniforms) (c : color) : color :=
  scale (brightness u) (tint u c).

Section Pass.
Variable K : curves.

(** Modelled from the spec: the fragment program of the pass is not in
    the header.  Stage 1, a radial remap about the screen centre whose
    gain grows with [curvature] and depends on the squared radius. *)
Definition barrel (k : Qc) (p : coord) : coord :=
  let g := 1 + k * bulge K (radius2 p) in
  (half + (fst p - half) * g, half + (snd p - half) * g).

(** Modelled from the spec: stage 3, multiply by a periodic function of
    the vertical coordinate, of period [1 / scanlineCount], with amplitude
    [scanlineIntensity] (0 leaves the sample as it is). *)
Definition scanlines (u : uniforms) (y : Qc) (c : color) : color :=
  scale (1 - scanlineIntensity u * band K (y * scanlineCount u)) c.

(** Modelled from the spec: stage 4, blend with the co-located sample of
    the previous frame's output, [phosphorPersistence] being the weight
    toward the previous frame; on the first frame, when there is no
    previous output, the current sample is its own previous value. *)
Definition persist (u : uniforms) (prev : option texture) (uv : coord)
    (c : color) : color :=
  let old := match prev with Some t => t uv | None => c end in
  plus (scale (1 - phosphorPersistence u) c) (scale (phosphorPersistence u) old).

(** Modelled from the spec: stage 5, add the blurred bright regions,
    scaled by [glowIntensity]. *)
Definition glow (u : uniforms) (scene : texture) (d : coord) (c : color)
    : color :=
  plus c (scale (glowIntensity u) (bloom K scene d)).

(** Modelled from the spec: stage 7, darken as a function of the distance
    from the centre, scaled by [vignetteStrength]. *)
Definition vignette (u : uniforms) (uv : coord) (c : color) : color :=
  scale (1 - vignetteStrength u * falloff K (radius2 uv)) c.

(** Modelled from the spec: stage 8, modulate the brightness by a function
    of [time], scaled by [flickerAmount]. *)
Definition flicker (u : uniforms) (c : color) : color :=
  scale (1 + flickerAmount u * wobble K (time u)) c.

(** Modelled from the spec: stage 9, add a perturbation that is a function
    of the pixel coordinate and [time], scaled by [noiseAmount]. *)
Definition noise (u : uniforms) (uv : coord) (c : color) : color :=
  plus c (grey (noiseAmount u * grain K uv (time u))).

(** Modelled from the spec: stages 2 to 10 at an on-screen pixel, in the
    order the specification applies them, before the final clamp.  Stage 2
    samples the scene at the remapped coordinate. *)
Definition stages (u : uniforms) (scene : texture) (prev : option texture)
    (uv : coord) : color :=
  let d := barrel (curvature u) uv in
  let c := scene d in
  let c := scanlines u (snd d) c in
  let c := persist u prev uv c in
  let c := glow u scene d c in
  let c := tint u c in
  let c := vignette u uv c in
  let c := flicker u c in
  let c := noise u uv c in
  scale (brightness u) c.

(** Modelled from the spec: one output pixel of the pass.  The result
    of the stages is clamped to the valid colour range; a pixel whose
    remapped coordinate leaves the unit square is forced to black whatever
    the stages give. *)
Definition pixel (u : uniforms) (scene : texture) (prev : option texture)
    (uv : coord) : color :=
  if on_screen (barrel (curvature u) uv)
  then clamp (stages u scene prev uv)
  else black.
End Pass.

(** Modelled from the spec: the six effect amounts the bypass property of
    the specification sets to zero. *)
Definition effects_off (u : uniforms) : Prop :=
  curvature u = 0 /\ vignetteStrength u = 0 /\ scanlineIntensity u = 0
  /\ glowIntensity u = 0 /\ noiseAmount u = 0 /\ flickerAmount u = 0.

(** *** Sample inputs *)

Definition Qcn (n : Z) : Qc := Q2Qc (inject_Z n).

(** One choice of curves: a gain [1 + curvature * r2], no bands, no
    bloom, a falloff that grows with the squared distance, no flicker and
    no grain. *)
Definition plain_curves : curves :=
  Curves (fun r2 => r2) (fun _ => 0) (fun _ _ => black)
         (fun d2 => d2) (fun _ => 0) (fun _ _ => 0).

(** All six effects off on an 800 x 600 target with 300 scanlines and a
    neutral tint; [b] is the brightness and [p] the persistence. *)
Definition bypass (b p : Qc) : uniforms :=
  Uniforms 0 0 0 (Qcn 300) 0 0 0 b (Qcn 800, Qcn 600) 1 1 1 p 0 0.

(** The same target with curvature 1 and every effect at 1. *)
Definition curved : uniforms :=
  Uniforms 0 1 1 (Qcn 300) 1 1 1 1 (Qcn 800, Qcn 600) 1 1 1 half 1 0.

Definition white_scene : texture := fun _ => (1, 1, 1).
Definition dark_frame : texture := fun _ => black.
Definition corner : coord := (1, 1).
End CRTPostProcessor.

(** ** Arrays of structs, tails and rows *)

(** The byte offset, from the start of an array of [s], of the member
    that lies at offset [o] in the element of index [i]: elements are
    [sizeof] bytes apart. *)
Definition element_offset (A : abi) (s : struct) (i o : nat) : nat :=
  i * struct_size A s + o.

(** The implicit padding after the last member of a struct. *)
Definition tail_padding (A : abi) (s : struct) : nat :=
  struct_size A s - fields_end A (members s).

(** The struct without the member it declares last. *)
Definition without_last (s : struct) : struct :=
  Struct (sname s) (removelast (members s)).

(** Sizes that agree with [<simd/simd.h>] on [float] and on
    [simd_float2], whatever they say of the larger types: a float is 4
    bytes on a 4-byte boundary, a [simd_float2] is 8 bytes aligned as a
    float or as itself. *)
Definition float2_like (A : abi) : Prop :=
  sizeof A Float = 4 /\ alignof A Float = 4
  /\ sizeof A SimdFloat2 = 8
  /\ (alignof A SimdFloat2 = 4 \/ alignof A SimdFloat2 = 8).

(** * Properties *)

(** ** Rounding up to an alignment *)

Lemma align_up_ge (n a : nat) : 0 < a -> n <= align_up n a.
Proof.
  intros Ha. unfold align_up.
  pose proof (Nat.div_mod_eq (n + a - 1) a) as E.
  pose proof (Nat.mod_upper_bound (n + a - 1) a ltac:(lia)) as B.
  nia.
Qed.

Lemma align_up_mod (n a : nat) : align_up n a mod a = 0.
Proof. unfold align_up. apply Nat.Div0.mod_mul. Qed.

Lemma align_up_multiple (k a : nat) : 0 < a -> align_up (k * a) a = k * a.
Proof.
  intros Ha. unfold align_up. f_equal.
  symmetry. apply (Nat.div_unique _ _ _ (a - 1)); lia.
Qed.

Lemma align_up_zero (a : nat) : 0 < a -> align_up 0 a = 0.
Proof. intros Ha. apply (align_up_multiple 0 a Ha). Qed.

Lemma multiple_of_16 (n : nat) : n mod 16 = 0 -> exists q, n = q * 16.
Proof.
  intros H. exists (n / 16).
  pose proof (Nat.div_mod_eq n 16). lia.
Qed.

Lemma ctype_eqb_eq (a b : ctype) : ctype_eqb a b = true <-> a = b.
Proof. destruct a, b; simpl; split; intros H; congruence. Qed.

(** ** The layout rule *)

Section LayoutFacts.
Variable A : abi.
Hypothesis align_pos : forall t, 0 < alignof A t.

Lemma end_from_ge (fs : list field) :
  forall cur, cur <= end_from A cur fs.
Proof.
  induction fs as [|f fs IH]; intros cur; simpl; [lia|].
  specialize (IH (align_up cur (alignof A (ftype f)) + sizeof A (ftype f))).
  pose proof (align_up_ge cur _ (align_pos (ftype f))). lia.
Qed.

Lemma layout_from_fields (fs : list field) :
  forall cur, map fst (layout_from A cur fs) = fs.
Proof. induction fs; intros cur; simpl; [reflexivity | now rewrite IHfs]. Qed.

(** Every member lies at or after the running offset, and ends at or
    before the end of the members. *)
Lemma layout_from_bounds (fs : list field) :
  forall cur f o, In (f, o) (layout_from A cur fs) ->
    cur <= o /\ o + sizeof A (ftype f) <= end_from A cur fs.
Proof.
  induction fs as [|g fs IH]; intros cur f o Hin; simpl in *; [tauto|].
  pose proof (align_up_ge cur _ (align_pos (ftype g))) as Hge.
  destruct Hin as [E | Hin].
  - inversion E; subst. split; [exact Hge|]. apply end_from_ge.
  - apply IH in Hin. lia.
Qed.

Lemma struct_align_pos (s : struct) : 0 < struct_align A s.
Proof.
  unfold struct_align. induction (members s); simpl; lia.
Qed.

Lemma struct_size_ge_end (s : struct) :
  fields_end A (members s) <= struct_size A s.
Proof. apply align_up_ge, struct_align_pos. Qed.
End LayoutFacts.

Lemma vec3_then_aligned_cons (f g : field) (o o' : nat) (rest : list (field * nat)) :
  vec3_then_aligned ((f, o) :: (g, o') :: rest)
  = (if ctype_eqb (ftype f) SimdFloat3
     then (o' mod 16 =? 0) && (o + 4 * lanes (ftype f) <? o')
     else true)
    && vec3_then_aligned ((g, o') :: rest).
Proof. reflexivity. Qed.

(** With the sizes of [<simd/simd.h>], whatever the struct, the member
    declared after a [simd_float3] starts on a multiple of 16: the vector
    is a 16-byte slot on a 16-byte boundary, and 4, 8 and 16 divide 16. *)
Lemma simd_vec3_then_aligned (fs : list field) :
  forall cur, vec3_then_aligned (layout_from simd_abi cur fs) = true.
Proof.
  induction fs as [|f fs IH]; intros cur; [reflexivity|].
  destruct fs as [|g fs]; [reflexivity|].
  specialize (IH (align_up cur (alignof simd_abi (ftype f))
                  + sizeof simd_abi (ftype f))).
  cbn [layout_from] in *.
  rewrite vec3_then_aligned_cons, IH, andb_true_r.
  destruct (ctype_eqb (ftype f) SimdFloat3) eqn:Ef; [|reflexivity].
  apply ctype_eqb_eq in Ef. rewrite Ef. cbn [sizeof alignof simd_abi lanes].
  set (o := align_up cur 16).
  assert (Hm : o mod 16 = 0) by apply align_up_mod.
  destruct (multiple_of_16 o Hm) as [q Hq].
  assert (Hnext : align_up (o + 16) (alignof simd_abi (ftype g)) = o + 16).
  { destruct (ftype g); simpl.
    - replace (o + 16) with ((4 * q + 4) * 4) by lia.
      apply align_up_multiple; lia.
    - replace (o + 16) with ((2 * q + 2) * 8) by lia.
      apply align_up_multiple; lia.
    - replace (o + 16) with ((q + 1) * 16) by lia.
      apply align_up_multiple; lia.
    - replace (o + 16) with ((q + 1) * 16) by lia.
      apply align_up_multiple; lia. }
  cbn [alignof simd_abi] in Hnext. rewrite Hnext.
  apply andb_true_iff; split.
  - apply Nat.eqb_eq. replace (o + 16) with ((q + 1) * 16) by lia.
    apply Nat.Div0.mod_mul.
  - apply Nat.ltb_lt. lia.
Qed.

Lemma vec3_then_aligned_nth (lay : list (field * nat)) :
  vec3_then_aligned lay = true ->
  forall i f o g o',
    nth_error lay i = Some (f, o) ->
    nth_error lay (S i) = Some (g, o') ->
    ftype f = SimdFloat3 ->
    o' mod 16 = 0 /\ o + 4 * lanes (ftype f) < o'.
Proof.
  induction lay as [|[f0 o0] lay IH]; intros Hv i f o g o' Hi Hs Hf.
  - destruct i; discriminate.
  - destruct lay as [|[g0 o1] lay']; [destruct i; discriminate|].
    cbn [vec3_then_aligned] in Hv. apply andb_true_iff in Hv as [Hh Ht].
    destruct i as [|i].
    + simpl in Hi, Hs. inversion Hi; inversion Hs; subst.
      rewrite Hf in Hh. simpl in Hh.
      apply andb_true_iff in Hh as [H1 H2].
      apply Nat.eqb_eq in H1. apply Nat.ltb_lt in H2.
      rewrite Hf. simpl. lia.
    + apply (IH Ht i f o g o'); assumption.
Qed.

(** ** The vertex formats *)

(** C1 as the contract words it fails: with the vector types of
    [<simd/simd.h>] a [SceneVertex] is not 32 bytes, because each of its
    two [simd_float3] members takes a 16-byte slot. *)
Lemma SceneVertex_not_32_bytes :
  map (offset_of simd_abi SceneVertex) ["position"; "normal"; "texCoord"]
  = [Some 0; Some 16; Some 32]
  /\ struct_size simd_abi SceneVertex = 48
  /\ struct_size simd_abi SceneVertex <> 32.
Proof. repeat split; try reflexivity. discriminate. Qed.

(** C1, amended: [SceneVertex] is position (3 floats), normal (3 floats)
    and texCoord (2 floats), 32 bytes of float data laid out in a 48-byte
    struct with the members at offsets 0, 16 and 32; [QuadVertex] is
    position (2 floats) and texCoord (2 floats) and occupies 16 bytes;
    these two are the only vertex formats of the header. *)
Theorem vertex_formats_layout :
  shape SceneVertex = DataModel.SceneVertex
  /\ data_bytes (members SceneVertex) = 32
  /\ map snd (layout simd_abi SceneVertex) = [0; 16; 32]
  /\ struct_size simd_abi SceneVertex = 48
  /\ shape QuadVertex = DataModel.QuadVertex
  /\ map snd (layout simd_abi QuadVertex) = [0; 8]
  /\ struct_size simd_abi QuadVertex = 16
  /\ vertex_formats = [SceneVertex; QuadVertex].
Proof. repeat split. Qed.

(** The 32 bytes of the contract are the size under the packed reading
    only. *)
Remark SceneVertex_packed_size : struct_size packed_abi SceneVertex = 32.
Proof. reflexivity. Qed.

(** No choice of sizes and alignments with 4-byte aligned floats and a
    [simd_float2] of at least two floats gives both a 32-byte [SceneVertex]
    and, in [MaterialUniforms], a member after the 3-component vector that
    starts on a multiple of 16. *)
Lemma packed_or_aligned (A : abi) :
  (forall t, 0 < alignof A t) ->
  alignof A Float = 4 ->
  8 <= sizeof A SimdFloat2 ->
  struct_size A SceneVertex = 32 ->
  vec3_then_aligned (layout A MaterialUniforms) = true ->
  False.
Proof.
  intros Hal Hf H2 Hsz Hv.
  pose proof (struct_size_ge_end A SceneVertex) as Hend.
  rewrite Hsz in Hend. unfold fields_end in Hend. simpl in Hend.
  pose proof (align_up_ge 0 _ (Hal SimdFloat3)) as G0.
  pose proof (align_up_ge (align_up 0 (alignof A SimdFloat3) + sizeof A SimdFloat3)
                _ (Hal SimdFloat3)) as G1.
  pose proof (align_up_ge
                (align_up (align_up 0 (alignof A SimdFloat3) + sizeof A SimdFloat3)
                   (alignof A SimdFloat3) + sizeof A SimdFloat3)
                _ (Hal SimdFloat2)) as G2.
  assert (Hs3 : sizeof A SimdFloat3 <= 12) by lia.
  unfold layout in Hv. cbn [members MaterialUniforms layout_from] in Hv.
  rewrite vec3_then_aligned_cons in Hv.
  apply andb_true_iff in Hv as [Hv _]. cbn [ftype ctype_eqb lanes] in Hv.
  apply andb_true_iff in Hv as [_ Hlt]. apply Nat.ltb_lt in Hlt.
  rewrite Hf, (align_up_zero _ (Hal SimdFloat3)) in Hlt. simpl in Hlt.
  assert (Hup : align_up (sizeof A SimdFloat3) 4 <= 12).
  { unfold align_up.
    pose proof (Nat.div_mod_eq (sizeof A SimdFloat3 + 4 - 1) 4).
    pose proof (Nat.mod_upper_bound (sizeof A SimdFloat3 + 4 - 1) 4 ltac:(lia)).
    assert ((sizeof A SimdFloat3 + 4 - 1) / 4 < 4)
      by (apply Nat.Div0.div_lt_upper_bound; lia).
    lia. }
  lia.
Qed.

(** ** Explicit padding *)

(** C2 as stated fails on its last part: not every uniform record of the
    header ends with [padding1], [padding2], [padding3]; [CRTUniforms]
    ends with a single member called [padding]. *)
Lemma CRTUniforms_has_no_padding123 :
  In CRTUniforms uniform_records
  /\ trailing_padding CRTUniforms = ["padding"]
  /\ trailing_padding CRTUniforms <> ["padding1"; "padding2"; "padding3"].
Proof. repeat split; try discriminate. simpl. auto. Qed.

(** C2, amended: [SceneUniforms] and [MaterialUniforms] end with the three
    explicit members [padding1], [padding2], [padding3] and [CRTUniforms]
    with the single explicit member [padding], each at a byte offset past
    the last semantic member; in every uniform record of the header the
    explicit padding members are present and declared after the last
    semantic member, they are [float]s, the members that are attributes of
    the data model are exactly the others, and the record's size is a
    multiple of 16. *)
Theorem uniform_records_end_with_padding :
  trailing_padding SceneUniforms = ["padding1"; "padding2"; "padding3"]
  /\ trailing_padding MaterialUniforms = ["padding1"; "padding2"; "padding3"]
  /\ trailing_padding CRTUniforms = ["padding"]
  /\ map (offset_of simd_abi SceneUniforms)
       ["specularPower"; "padding1"; "padding2"; "padding3"]
     = map Some [340; 344; 348; 352]
  /\ map (offset_of simd_abi MaterialUniforms)
       ["metallic"; "padding1"; "padding2"; "padding3"]
     = map Some [20; 24; 28; 32]
  /\ map (offset_of simd_abi CRTUniforms) ["noiseAmount"; "padding"]
     = map Some [56; 60]
  /\ uniform_records = [SceneUniforms; CRTUniforms; MaterialUniforms]
  /\ Forall (fun s =>
       members s = (semantic_fields s ++ padding_fields s)%list
       /\ padding_fields s <> []
       /\ field_names (padding_fields s) = trailing_padding s
       /\ field_names (semantic_fields s) = filter
            (fun n => existsb (String.eqb n) (DataModel.attributes (sname s)))
            (field_names (members s))
       /\ Forall (fun f => ftype f = Float) (padding_fields s)
       /\ struct_size simd_abi s mod 16 = 0)
     uniform_records.
Proof.
  repeat split; try reflexivity.
  repeat constructor; try discriminate.
Qed.

(** Under the sizes of [<simd/simd.h>] the records without their explicit
    padding members would still have sizes that are multiples of 16. *)
Remark sizes_without_padding :
  map (fun s => struct_size simd_abi (Struct (sname s) (semantic_fields s)))
      uniform_records = [352; 64; 32]
  /\ map (struct_size simd_abi) uniform_records = [368; 64; 48].
Proof. split; reflexivity. Qed.

(** ** CRTUniforms *)

(** C3: the semantic members of [CRTUniforms], in declaration order, are
    the per-frame CRT parameters in the order the data model lists them
    (the green tint as its R, G and B components); every one is a single
    float but [resolution], which is two; and each sits at its own byte
    offset, increasing in that order. *)
Theorem CRTUniforms_parameter_order :
  field_names (semantic_fields CRTUniforms) = DataModel.CRTUniforms
  /\ map (fun f => lanes (ftype f)) (semantic_fields CRTUniforms)
     = [1; 1; 1; 1; 1; 1; 1; 1; 2; 1; 1; 1; 1; 1]
  /\ map (offset_of simd_abi CRTUniforms) DataModel.CRTUniforms
     = map Some [0; 4; 8; 12; 16; 20; 24; 28; 32; 40; 44; 48; 52; 56].
Proof. repeat split. Qed.

(** C9: [CRTUniforms] ends with one explicit member, [padding], a float
    that is no parameter of the data model; with it the record is 64
    bytes, a multiple of 16; the semantic members alone occupy bytes 0 to
    60. *)
Theorem CRTUniforms_trailing_padding :
  last (members CRTUniforms) (Field "" Float) = Field "padding" Float
  /\ padding_fields CRTUniforms = [Field "padding" Float]
  /\ members CRTUniforms
     = (semantic_fields CRTUniforms ++ [Field "padding" Float])%list
  /\ existsb (String.eqb "padding") DataModel.CRTUniforms = false
  /\ offset_of simd_abi CRTUniforms "padding" = Some 60
  /\ struct_size simd_abi CRTUniforms = 64
  /\ 64 mod 16 = 0
  /\ sum_sizes simd_abi (semantic_fields CRTUniforms) = 60
  /\ fields_end simd_abi (semantic_fields CRTUniforms) = 60.
Proof. repeat split. Qed.

(** The [simd_float2] member makes the struct 8-byte aligned. *)
Remark CRTUniforms_alignment : struct_align simd_abi CRTUniforms = 8.
Proof. reflexivity. Qed.

(** ** 3-component vectors in the uniform records *)

(** C4: in every uniform record of the header, the member declared right
    after a 3-component vector starts at a byte offset that is a multiple
    of 16, and past the three floats of the vector: there is padding
    between them. *)
Theorem vec3_followed_by_aligned_field (s : struct) (i : nat)
    (f g : field) (o o' : nat) :
  In s uniform_records ->
  nth_error (layout simd_abi s) i = Some (f, o) ->
  nth_error (layout simd_abi s) (S i) = Some (g, o') ->
  ftype f = SimdFloat3 ->
  o' mod 16 = 0 /\ o + 4 * lanes (ftype f) < o'.
Proof.
  intros _ Hi Hs Hf.
  apply (vec3_then_aligned_nth (layout simd_abi s)
           (simd_vec3_then_aligned (members s) 0) i f o g o' Hi Hs Hf).
Qed.

(** In [SceneUniforms], [cameraPosition] lies at offset 320 and
    [specularIntensity], declared after it, at 336. *)
Lemma vec3_followed_by_aligned_field_witness :
  336 mod 16 = 0 /\ 320 + 4 * 3 < 336.
Proof.
  apply (vec3_followed_by_aligned_field SceneUniforms 8
           (Field "cameraPosition" SimdFloat3)
           (Field "specularIntensity" Float) 320 336).
  - simpl. auto.
  - reflexivity.
  - reflexivity.
  - reflexivity.
Defined.

(** The offsets C4 speaks of, record by record. *)
Remark vec3_offsets :
  map (offset_of simd_abi SceneUniforms)
    ["lightPosition"; "ambientIntensity"; "lightColor"; "diffuseIntensity";
     "cameraPosition"; "specularIntensity"]
  = map Some [256; 272; 288; 304; 320; 336]
  /\ map (offset_of simd_abi MaterialUniforms) ["baseColor"; "roughness"]
     = map Some [0; 16]
  /\ filter (fun f => ctype_eqb (ftype f) SimdFloat3) (members CRTUniforms) = [].
Proof. repeat split. Qed.

(** ** SceneUniforms *)

(** C10: the 3-component vectors of [SceneUniforms] are [lightPosition],
    [lightColor] and [cameraPosition]; each is immediately followed by one
    scalar intensity ([ambientIntensity], [diffuseIntensity],
    [specularIntensity]) and what follows that one is no intensity; so the
    declared order interleaves vectors and scalars and is not the order of
    the data model's attribute list, of which it is a rearrangement. *)
Theorem SceneUniforms_interleaves :
  filter (fun f => ctype_eqb (ftype f) SimdFloat3) (members SceneUniforms)
  = [ Field "lightPosition" SimdFloat3; Field "lightColor" SimdFloat3;
      Field "cameraPosition" SimdFloat3 ]
  /\ map (next_field SceneUniforms)
       ["lightPosition"; "lightColor"; "cameraPosition"]
     = map Some [ Field "ambientIntensity" Float;
                  Field "diffuseIntensity" Float;
                  Field "specularIntensity" Float ]
  /\ map (fun n => option_map is_intensity (next_field SceneUniforms n))
       ["lightPosition"; "lightColor"; "cameraPosition"]
     = [Some true; Some true; Some true]
  /\ map (fun n => option_map is_intensity (next_field SceneUniforms n))
       ["ambientIntensity"; "diffuseIntensity"; "specularIntensity"]
     = [Some false; Some false; Some false]
  /\ field_names (semantic_fields SceneUniforms)
     = [ "modelMatrix"; "viewMatrix"; "projectionMatrix"; "normalMatrix";
         "lightPosition"; "ambientIntensity"; "lightColor"; "diffuseIntensity";
         "cameraPosition"; "specularIntensity"; "specularPower" ]
  /\ field_names (semantic_fields SceneUniforms) <> DataModel.SceneUniforms
  /\ Permutation (field_names (semantic_fields SceneUniforms))
       DataModel.SceneUniforms.
Proof.
  repeat split; try discriminate.
  cbn. do 5 apply perm_skip.
  eapply perm_trans; [apply perm_swap|].
  do 3 apply perm_skip.
  apply (Permutation_cons_append ["specularIntensity"; "specularPower"]
           "cameraPosition").
Qed.

(** ** Round trip through the byte layout *)

Module WireFacts.
Import Wire.
Local Open Scope Z_scope.

Lemma le_bytes_length (n : nat) : forall w, List.length (le_bytes n w) = n.
Proof. induction n; intros w; simpl; [reflexivity | now rewrite IHn]. Qed.

Lemma le_word_le_bytes (n : nat) :
  forall w, 0 <= w < 256 ^ Z.of_nat n -> le_word (le_bytes n w) = w.
Proof.
  induction n as [|n IH]; intros w Hw.
  - simpl in *. lia.
  - rewrite Nat2Z.inj_succ, Z.pow_succ_r in Hw by lia.
    cbn [le_bytes le_word]. rewrite IH.
    + pose proof (Z.div_mod w 256 ltac:(lia)). lia.
    + split; [apply Z.div_pos; lia|].
      apply Z.div_lt_upper_bound; lia.
Qed.

Lemma encode_lanes_length (v : fvalue) :
  List.length (encode_lanes v) = (4 * List.length v)%nat.
Proof.
  induction v as [|w v IH]; [reflexivity|].
  unfold encode_lanes in *. cbn [flat_map].
  rewrite length_app, le_bytes_length, IH. simpl. lia.
Qed.

Lemma decode_encode_lanes (v : fvalue) :
  Forall (fun w => 0 <= w < 2 ^ 32) v ->
  decode_lanes (List.length v) (encode_lanes v) = v.
Proof.
  induction 1 as [|w v Hw Hv IH]; [reflexivity|].
  change (encode_lanes (w :: v)) with (le_bytes 4 w ++ encode_lanes v)%list.
  change (List.length (w :: v)) with (S (List.length v)).
  cbn [decode_lanes]. f_equal.
  - change (firstn 4 (le_bytes 4 w ++ encode_lanes v)) with (le_bytes 4 w).
    apply le_word_le_bytes. exact Hw.
  - exact IH.
Qed.

(** Reading inside a prefix does not see what comes after it. *)
Lemma read_at_app (o n : nat) (l1 l2 : list Z) :
  (o + n <= List.length l1)%nat ->
  read_at o n (l1 ++ l2) = read_at o n l1.
Proof.
  intros H. unfold read_at. rewrite skipn_app, firstn_app.
  replace (n - List.length (skipn o l1))%nat with 0%nat
    by (rewrite length_skipn; lia).
  rewrite firstn_O, app_nil_r. reflexivity.
Qed.

Lemma read_write_same (o : nat) (bs buf : list Z) :
  (o <= List.length buf)%nat ->
  read_at o (List.length bs) (write_at o bs buf) = bs.
Proof.
  intros H. unfold read_at, write_at.
  rewrite skipn_app, length_firstn, Nat.min_l by exact H.
  rewrite skipn_all2 by (rewrite length_firstn; lia).
  rewrite Nat.sub_diag. cbn [skipn app].
  rewrite firstn_app, Nat.sub_diag, firstn_all, firstn_O, app_nil_r.
  reflexivity.
Qed.

Lemma read_write_before (o n o' : nat) (bs buf : list Z) :
  (o + n <= o')%nat -> (o' <= List.length buf)%nat ->
  read_at o n (write_at o' bs buf) = read_at o n buf.
Proof.
  intros H1 H2. unfold write_at.
  rewrite read_at_app by (rewrite length_firstn; lia).
  rewrite <- (firstn_skipn o' buf) at 2.
  rewrite read_at_app by (rewrite length_firstn; lia).
  reflexivity.
Qed.

Lemma write_at_length (o : nat) (bs buf : list Z) :
  (o + List.length bs <= List.length buf)%nat ->
  List.length (write_at o bs buf) = List.length buf.
Proof.
  intros H. unfold write_at.
  rewrite !length_app, length_firstn, length_skipn. lia.
Qed.

Section RoundTrip.
Variable A : abi.
Hypothesis sane : abi_sane A.

Lemma align_pos (t : ctype) : (0 < alignof A t)%nat.
Proof. apply sane. Qed.

Lemma size_ok (t : ctype) : (4 * lanes t <= sizeof A t)%nat.
Proof. apply sane. Qed.

Lemma store_length (fs : list field) (vs : rvalue) :
  Forall2 field_typed fs vs ->
  forall cur buf,
    (end_from A cur fs <= List.length buf)%nat ->
    List.length (store (layout_from A cur fs) vs buf) = List.length buf.
Proof.
  induction 1 as [|f v fs vs [Hlen Hrange] Hrest IH]; intros cur buf Hend;
    [reflexivity|].
  cbn [layout_from store end_from] in *.
  pose proof (end_from_ge A align_pos fs
                (align_up cur (alignof A (ftype f)) + sizeof A (ftype f))).
  pose proof (size_ok (ftype f)).
  assert (Hw : List.length (write_at (align_up cur (alignof A (ftype f)))
                              (encode_lanes v) buf) = List.length buf)
    by (apply write_at_length; rewrite encode_lanes_length; lia).
  rewrite IH; [exact Hw | rewrite Hw; exact Hend].
Qed.

(** Storing the members placed from [cur] on leaves the bytes below
    [cur] as they were. *)
Lemma store_below (fs : list field) (vs : rvalue) :
  Forall2 field_typed fs vs ->
  forall cur buf o n,
    (end_from A cur fs <= List.length buf)%nat ->
    (o + n <= cur)%nat ->
    read_at o n (store (layout_from A cur fs) vs buf) = read_at o n buf.
Proof.
  induction 1 as [|f v fs vs [Hlen Hrange] Hrest IH];
    intros cur buf o n Hend Hon; [reflexivity|].
  cbn [layout_from store end_from] in *.
  pose proof (end_from_ge A align_pos fs
                (align_up cur (alignof A (ftype f)) + sizeof A (ftype f))).
  pose proof (size_ok (ftype f)).
  pose proof (align_up_ge cur _ (align_pos (ftype f))).
  rewrite IH.
  - apply read_write_before; lia.
  - rewrite write_at_length; [exact Hend|].
    rewrite encode_lanes_length. lia.
  - lia.
Qed.

Lemma roundtrip_from (fs : list field) (vs : rvalue) :
  Forall2 field_typed fs vs ->
  forall cur buf,
    (end_from A cur fs <= List.length buf)%nat ->
    map (decode_member (store (layout_from A cur fs) vs buf))
        (layout_from A cur fs) = vs.
Proof.
  induction 1 as [|f v fs vs Hfv Hrest IH]; intros cur buf Hend;
    [reflexivity|].
  pose proof Hfv as [Hlen Hrange].
  cbn [layout_from store end_from map] in *.
  set (o := align_up cur (alignof A (ftype f))) in *.
  pose proof (end_from_ge A align_pos fs (o + sizeof A (ftype f))).
  pose proof (size_ok (ftype f)).
  assert (Hw : List.length (write_at o (encode_lanes v) buf)
               = List.length buf)
    by (apply write_at_length; rewrite encode_lanes_length; lia).
  f_equal.
  - unfold decode_member. cbn [fst snd].
    rewrite (store_below fs vs Hrest) by lia.
    replace (4 * lanes (ftype f))%nat with (List.length (encode_lanes v))
      by (rewrite encode_lanes_length; lia).
    rewrite read_write_same by lia.
    rewrite <- Hlen. apply decode_encode_lanes. exact Hrange.
  - apply IH. rewrite Hw. exact Hend.
Qed.

(** Whatever the struct: every member read back from the bytes is the
    member that was written. *)
Lemma roundtrip (s : struct) (vs : rvalue) :
  well_typed s vs -> deserialize A s (serialize A s vs) = vs.
Proof.
  intros Hvs. unfold deserialize, serialize, layout.
  apply (roundtrip_from (members s) vs Hvs 0).
  rewrite repeat_length. apply struct_size_ge_end.
Qed.

(** The bytes are as many as the struct is large. *)
Lemma serialize_length (s : struct) (vs : rvalue) :
  well_typed s vs ->
  List.length (serialize A s vs) = struct_size A s.
Proof.
  intros Hvs. unfold serialize, layout.
  rewrite (store_length (members s) vs Hvs).
  - apply repeat_length.
  - rewrite repeat_length. apply struct_size_ge_end.
Qed.
End RoundTrip.

Lemma simd_abi_sane : abi_sane simd_abi.
Proof. intros t; destruct t; simpl; lia. Qed.

(** C5: for each of the uniform records [SceneUniforms], [CRTUniforms]
    and [MaterialUniforms] and every assignment of values to its members,
    writing the record to its byte layout gives as many bytes as the
    struct is large, and reading the bytes back gives the values that were
    written, the padding members included. *)
Theorem uniform_roundtrip (s : struct) (vs : rvalue) :
  In s [SceneUniforms; CRTUniforms; MaterialUniforms] ->
  well_typed s vs ->
  List.length (serialize simd_abi s vs) = struct_size simd_abi s
  /\ deserialize simd_abi s (serialize simd_abi s vs) = vs.
Proof.
  intros _ Hvs. split.
  - apply (serialize_length simd_abi simd_abi_sane s vs Hvs).
  - apply (roundtrip simd_abi simd_abi_sane s vs Hvs).
Qed.

(** The round trip of the sample casing material. *)
Lemma uniform_roundtrip_witness :
  List.length (serialize simd_abi MaterialUniforms casing) = 48%nat
  /\ deserialize simd_abi MaterialUniforms
       (serialize simd_abi MaterialUniforms casing) = casing.
Proof.
  apply (uniform_roundtrip MaterialUniforms casing).
  - simpl. auto.
  - unfold well_typed, field_typed, casing. simpl.
    repeat constructor; simpl; lia.
Defined.
End WireFacts.

(** ** The CRT pass *)

Module CRTFacts.
Import CRTPostProcessor.
Local Open Scope Qc_scope.

(** Two canonical rationals are equal when their fractions are. *)
Ltac qc_compute := apply Qc_is_canon; vm_compute; reflexivity.
Ltac color_compute := repeat (apply f_equal2); qc_compute.

Section AnyCurves.
Variable K : curves.

(** C8: whatever the curvature (and whatever the gain curve), the
    barrel remap sends the exact screen centre to itself. *)
Theorem barrel_fixes_centre (k : Qc) : barrel K k centre = centre.
Proof.
  unfold barrel, centre, radius2. cbn [fst snd].
  apply f_equal2; ring.
Qed.

(** With curvature 0 the remap is the identity. *)
Lemma barrel_zero (uv : coord) : barrel K 0 uv = uv.
Proof.
  destruct uv as [x y]. unfold barrel. cbn [fst snd].
  apply f_equal2; ring.
Qed.

(** C7: a pixel whose remapped coordinate is outside the unit square
    is pure black, whatever the uniforms, the textures and the
    curves. *)
Theorem off_screen_is_black (u : uniforms) (scene : texture)
    (prev : option texture) (uv : coord) :
  on_screen (barrel K (curvature u) uv) = false ->
  pixel K u scene prev uv = black.
Proof. intros Hoff. unfold pixel. rewrite Hoff. reflexivity. Qed.

(** With the six effects off, the stages reduce to the persistence
    blend followed by the tint and the brightness multiply. *)
Lemma stages_effects_off (u : uniforms) (scene : texture)
    (prev : option texture) (uv : coord) :
  effects_off u ->
  stages K u scene prev uv
  = tinted_scaled u (persist u prev uv (scene uv)).
Proof.
  intros (Hc & Hv & Hs & Hg & Hn & Hf).
  unfold stages, scanlines, glow, vignette, flicker, noise, tinted_scaled.
  rewrite Hc, Hv, Hs, Hg, Hn, Hf, barrel_zero.
  unfold persist, tint, scale, plus, grey.
  destruct (scene uv) as [[r g] b].
  destruct (bloom K scene uv) as [[r' g'] b'].
  destruct prev as [t|]; [destruct (t uv) as [[r0 g0] b0]|];
    repeat (apply f_equal2); ring.
Qed.

(** Without persistence, or on the first frame, the blend returns the
    current sample. *)
Lemma persist_off (u : uniforms) (prev : option texture) (uv : coord)
    (c : color) :
  phosphorPersistence u = 0 \/ prev = None ->
  persist u prev uv c = c.
Proof.
  intros [Hp | Hp]; unfold persist, scale, plus; rewrite Hp;
    destruct c as [[r g] b].
  - destruct prev as [t|]; [destruct (t uv) as [[r0 g0] b0]|];
      repeat (apply f_equal2); ring.
  - repeat (apply f_equal2); ring.
Qed.

(** C6, amended: for every valid [CRTUniforms] with curvature,
    vignetteStrength, scanlineIntensity, glowIntensity, noiseAmount and
    flickerAmount 0, and with phosphorPersistence 0 or no previous
    frame yet, every pixel of the output is the input scene texture at
    that pixel with the green tint and the brightness multiply applied,
    clamped to the valid colour range. *)
Theorem bypass_is_tinted_input (u : uniforms) (scene : texture)
    (prev : option texture) (uv : coord) :
  valid u ->
  effects_off u ->
  phosphorPersistence u = 0 \/ prev = None ->
  on_screen uv = true ->
  pixel K u scene prev uv = clamp (tinted_scaled u (scene uv)).
Proof.
  intros _ Hoff Hp Hon. unfold pixel.
  rewrite (proj1 Hoff), barrel_zero, Hon.
  rewrite stages_effects_off by exact Hoff.
  rewrite persist_off by exact Hp. reflexivity.
Qed.
End AnyCurves.

Lemma bypass_valid (b p : Qc) : 0 <= p -> p <= 1 -> valid (bypass b p).
Proof.
  intros H0 H1. unfold valid, bypass. cbn.
  repeat split; try assumption.
  intros H; discriminate H.
Qed.

Lemma bypass_effects_off (b p : Qc) : effects_off (bypass b p).
Proof. unfold effects_off, bypass; cbn; repeat split. Qed.

Lemma Qcle_0_0 : 0 <= 0.
Proof. intros H; discriminate H. Qed.

Lemma Qcle_0_1 : 0 <= 1.
Proof. intros H; discriminate H. Qed.

Lemma Qcle_1_1 : 1 <= 1.
Proof. intros H; discriminate H. Qed.

(** C6 as stated fails.  With the six effects off and full persistence,
    a white scene over a black previous frame comes out black, not
    white; and with brightness 2 and no persistence the white scene
    comes out clamped to 1, not 2. *)
Lemma bypass_not_tinted_input :
  (valid (bypass 1 1) /\ effects_off (bypass 1 1)
   /\ on_screen centre = true
   /\ pixel plain_curves (bypass 1 1) white_scene (Some dark_frame) centre
      = black
   /\ tinted_scaled (bypass 1 1) (white_scene centre) = (1, 1, 1)
   /\ pixel plain_curves (bypass 1 1) white_scene (Some dark_frame) centre
      <> tinted_scaled (bypass 1 1) (white_scene centre))
  /\ (valid (bypass (1 + 1) 0) /\ effects_off (bypass (1 + 1) 0)
      /\ pixel plain_curves (bypass (1 + 1) 0) white_scene None centre
         = (1, 1, 1)
      /\ pixel plain_curves (bypass (1 + 1) 0) white_scene None centre
         <> tinted_scaled (bypass (1 + 1) 0) (white_scene centre)).
Proof.
  assert (E1 : pixel plain_curves (bypass 1 1) white_scene (Some dark_frame)
                 centre = black) by (vm_compute; color_compute).
  assert (E2 : pixel plain_curves (bypass (1 + 1) 0) white_scene None centre
               = (1, 1, 1)) by (vm_compute; color_compute).
  split; [split; [|split; [|split; [|split; [|split]]]]
         | split; [|split; [|split]]].
  - apply bypass_valid; [apply Qcle_0_1 | apply Qcle_1_1].
  - apply bypass_effects_off.
  - vm_compute. reflexivity.
  - exact E1.
  - vm_compute. color_compute.
  - rewrite E1. intros H. vm_compute in H. discriminate H.
  - apply bypass_valid; [apply Qcle_0_0 | apply Qcle_0_1].
  - apply bypass_effects_off.
  - exact E2.
  - rewrite E2. intros H. vm_compute in H. discriminate H.
Qed.

(** At brightness 2 without persistence the white scene comes out as the
    clamped, tinted and scaled input, whatever the previous frame. *)
Lemma bypass_is_tinted_input_witness :
  pixel plain_curves (bypass (1 + 1) 0) white_scene (Some dark_frame) centre
  = clamp (tinted_scaled (bypass (1 + 1) 0) (white_scene centre)).
Proof.
  apply (bypass_is_tinted_input plain_curves (bypass (1 + 1) 0) white_scene
           (Some dark_frame) centre).
  - apply bypass_valid; [apply Qcle_0_0 | apply Qcle_0_1].
  - apply bypass_effects_off.
  - left. reflexivity.
  - vm_compute. reflexivity.
Defined.

(** At curvature 1 the corner (1, 1) of the screen is remapped to
    (5/4, 5/4), outside the unit square. *)
Lemma off_screen_is_black_witness :
  on_screen (barrel plain_curves (curvature curved) corner) = false
  /\ pixel plain_curves curved white_scene (Some white_scene) corner = black.
Proof.
  split.
  - vm_compute. reflexivity.
  - apply (off_screen_is_black plain_curves curved white_scene
             (Some white_scene) corner).
    vm_compute. reflexivity.
Defined.
End CRTFacts.

(** * More on the layout of the header *)

(** ** Alignment and separation of the members *)

Lemma layout_from_aligned (A : abi) (fs : list field) :
  forall cur f o, In (f, o) (layout_from A cur fs) ->
    o mod alignof A (ftype f) = 0.
Proof.
  induction fs as [|g fs IH]; intros cur f o Hin; simpl in Hin; [tauto|].
  destruct Hin as [E | Hin].
  - inversion E; subst. apply align_up_mod.
  - apply (IH _ f o Hin).
Qed.

(** X1: in every struct of the header, every member lies at a byte
    offset that is a multiple of the alignment of its type. *)
Theorem members_aligned (s : struct) (f : field) (o : nat) :
  In s ShaderTypes_h ->
  In (f, o) (layout simd_abi s) ->
  o mod alignof simd_abi (ftype f) = 0.
Proof. intros _ Hin. apply (layout_from_aligned simd_abi (members s) 0 f o Hin). Qed.

(** [normal] in [SceneVertex], at offset 16. *)
Lemma members_aligned_witness : 16 mod 16 = 0.
Proof.
  apply (members_aligned SceneVertex (Field "normal" SimdFloat3) 16).
  - simpl. auto.
  - simpl. auto.
Defined.

Section Separation.
Variable A : abi.
Hypothesis align_pos : forall t, 0 < alignof A t.

(** A member declared later starts at or after the end of one declared
    earlier. *)
Lemma layout_from_ordered (fs : list field) :
  forall cur i j f g o o',
    i < j ->
    nth_error (layout_from A cur fs) i = Some (f, o) ->
    nth_error (layout_from A cur fs) j = Some (g, o') ->
    o + sizeof A (ftype f) <= o'.
Proof.
  induction fs as [|h fs IH]; intros cur i j f g o o' Hij Hi Hj.
  - destruct i; discriminate.
  - destruct j as [|j]; [lia|]. cbn [layout_from nth_error] in Hj.
    destruct i as [|i].
    + cbn [layout_from nth_error] in Hi. inversion Hi; subst.
      apply nth_error_In in Hj.
      apply (layout_from_bounds A align_pos) in Hj. lia.
    + cbn [layout_from nth_error] in Hi.
      eapply IH; [|exact Hi|exact Hj]; lia.
Qed.

Lemma layout_inside (s : struct) (f : field) (o : nat) :
  In (f, o) (layout A s) -> o + sizeof A (ftype f) <= struct_size A s.
Proof.
  intros Hin. apply (layout_from_bounds A align_pos) in Hin.
  pose proof (struct_size_ge_end A s). unfold fields_end in *. lia.
Qed.
End Separation.

Lemma simd_align_positive (t : ctype) : 0 < alignof simd_abi t.
Proof. destruct t; simpl; lia. Qed.

(** X2: in every struct of the header the members occupy separate byte
    ranges in declaration order, all inside the struct: a member declared
    later starts at or after the end of an earlier one and ends at or
    before [sizeof]. *)
Theorem members_do_not_overlap (s : struct) (i j : nat) (f g : field)
    (o o' : nat) :
  In s ShaderTypes_h ->
  i < j ->
  nth_error (layout simd_abi s) i = Some (f, o) ->
  nth_error (layout simd_abi s) j = Some (g, o') ->
  o + sizeof simd_abi (ftype f) <= o'
  /\ o' + sizeof simd_abi (ftype g) <= struct_size simd_abi s.
Proof.
  intros _ Hij Hi Hj. split.
  - apply (layout_from_ordered simd_abi simd_align_positive (members s)
             0 i j f g o o' Hij Hi Hj).
  - apply (layout_inside simd_abi simd_align_positive).
    apply (nth_error_In _ _ Hj).
Qed.

(** [diffuseIntensity] and [padding3] in [SceneUniforms]. *)
Lemma members_do_not_overlap_witness :
  304 + 4 <= 352 /\ 352 + 4 <= 368.
Proof.
  apply (members_do_not_overlap SceneUniforms 7 13
           (Field "diffuseIntensity" Float) (Field "padding3" Float) 304 352).
  - simpl. auto.
  - lia.
  - reflexivity.
  - reflexivity.
Defined.

(** ** Arrays of structs *)

(** With the sizes of [<simd/simd.h>] a struct is 1, 4, 8 or 16-byte
    aligned, and the alignment of each member divides that of the
    struct. *)
Lemma simd_struct_align (fs : list field) :
  let m := fold_right (fun f m => Nat.max (alignof simd_abi (ftype f)) m) 1 fs in
  (m = 1 \/ m = 4 \/ m = 8 \/ m = 16)
  /\ forall f, In f fs -> m mod alignof simd_abi (ftype f) = 0.
Proof.
  induction fs as [|g fs [Hm Hdiv]]; cbn zeta in *.
  - split; [left; reflexivity | intros f []].
  - cbn [fold_right].
    set (m := fold_right _ 1 fs) in *.
    split.
    + destruct (ftype g); cbn [alignof simd_abi];
        destruct Hm as [E | [E | [E | E]]]; rewrite E; cbn; auto.
    + intros f [Ef | Hf].
      * subst f. destruct (ftype g); cbn [alignof simd_abi];
          destruct Hm as [E | [E | [E | E]]]; rewrite E; reflexivity.
      * specialize (Hdiv f Hf).
        destruct (ftype f), (ftype g); cbn [alignof simd_abi] in *;
          destruct Hm as [E | [E | [E | E]]]; rewrite E in *;
          first [reflexivity | discriminate Hdiv].
Qed.

Lemma mod_zero_mul (n a : nat) : a <> 0 -> n mod a = 0 -> exists q, n = q * a.
Proof.
  intros Ha H. exists (n / a).
  pose proof (Nat.div_mod_eq n a). lia.
Qed.

(** X3: the size of every struct of the header is a multiple of its
    alignment, and of 16; so in an array of such structs every member of
    every element lies at an offset that is a multiple of the alignment
    of its type. *)
Theorem array_elements_aligned (s : struct) (i : nat) (f : field) (o : nat) :
  In s ShaderTypes_h ->
  In (f, o) (layout simd_abi s) ->
  struct_size simd_abi s mod struct_align simd_abi s = 0
  /\ struct_size simd_abi s mod 16 = 0
  /\ element_offset simd_abi s i o mod alignof simd_abi (ftype f) = 0.
Proof.
  intros Hs Hin. split; [apply align_up_mod|]. split.
  - simpl in Hs. decompose [or] Hs; subst; try reflexivity. contradiction.
  - assert (Ha : alignof simd_abi (ftype f) <> 0)
      by (pose proof (simd_align_positive (ftype f)); lia).
    assert (Hf : In f (members s)).
    { rewrite <- (layout_from_fields simd_abi (members s) 0).
      apply (in_map fst) in Hin. exact Hin. }
    destruct (simd_struct_align (members s)) as [_ Hdiv].
    specialize (Hdiv f Hf). fold (struct_align simd_abi s) in Hdiv.
    destruct (mod_zero_mul _ _ Ha Hdiv) as [k Hk].
    pose proof (struct_align_pos simd_abi s) as Hpos.
    destruct (mod_zero_mul (struct_size simd_abi s) (struct_align simd_abi s)
                ltac:(lia) (align_up_mod _ _)) as [q Hq].
    destruct (mod_zero_mul _ _ Ha
                (layout_from_aligned simd_abi (members s) 0 f o Hin)) as [r Hr].
    unfold element_offset. rewrite Hq, Hk, Hr.
    replace (i * (q * (k * alignof simd_abi (ftype f)))
             + r * alignof simd_abi (ftype f))
      with ((i * q * k + r) * alignof simd_abi (ftype f)) by lia.
    apply Nat.Div0.mod_mul.
Qed.

(** [normal] of the vertex of index 5 in an array of [SceneVertex]. *)
Lemma array_elements_aligned_witness :
  48 mod 16 = 0 /\ 48 mod 16 = 0 /\ (5 * 48 + 16) mod 16 = 0.
Proof.
  apply (array_elements_aligned SceneVertex 5 (Field "normal" SimdFloat3) 16).
  - simpl. auto.
  - simpl. auto.
Defined.

(** ** Looking a member up by its name *)

Lemma find_member (A : abi) (fs : list field) :
  NoDup (field_names fs) ->
  forall cur f o, In (f, o) (layout_from A cur fs) ->
    find (fun p => String.eqb (fname (fst p)) (fname f)) (layout_from A cur fs)
    = Some (f, o).
Proof.
  induction fs as [|g fs IH]; intros Hnd cur f o Hin; simpl in Hin; [tauto|].
  inversion Hnd as [|n ns Hnot Hnd']; subst.
  cbn [layout_from find fst].
  destruct Hin as [E | Hin].
  - inversion E; subst. rewrite String.eqb_refl. reflexivity.
  - destruct (String.eqb (fname g) (fname f)) eqn:Eg.
    + exfalso. apply Hnot. apply String.eqb_eq in Eg. rewrite Eg.
      apply in_map. rewrite <- (layout_from_fields A fs
        (align_up cur (alignof A (ftype g)) + sizeof A (ftype g))).
      apply (in_map fst) in Hin. exact Hin.
    + apply (IH Hnd' _ f o Hin).
Qed.

(** A name that no member has is given no offset, and only such a name. *)
Lemma offset_of_none (A : abi) (s : struct) (name : string) :
  offset_of A s name = None <-> ~ In name (field_names (members s)).
Proof.
  unfold offset_of, layout. generalize 0 as cur.
  induction (members s) as [|g fs IH]; intros cur; cbn.
  - split; [intros _ [] | reflexivity].
  - destruct (String.eqb (fname g) name) eqn:Eg; cbn.
    + apply String.eqb_eq in Eg. split; [discriminate | intros H; exfalso; auto].
    + apply String.eqb_neq in Eg. rewrite (IH _). tauto.
Qed.

Lemma header_names_distinct (s : struct) :
  In s ShaderTypes_h -> NoDup (field_names (members s)).
Proof.
  intros Hs. simpl in Hs. decompose [or] Hs; subst; try contradiction;
    cbn; repeat (constructor; [cbn; intuition discriminate|]); constructor.
Qed.

(** X4: within each struct of the header the member names are distinct,
    so looking a member up by its name gives the offset of that very
    member. *)
Theorem offset_of_member (s : struct) (f : field) (o : nat) :
  In s ShaderTypes_h ->
  In (f, o) (layout simd_abi s) ->
  NoDup (field_names (members s))
  /\ offset_of simd_abi s (fname f) = Some o.
Proof.
  intros Hs Hin. pose proof (header_names_distinct s Hs) as Hnd.
  split; [exact Hnd|].
  unfold offset_of, layout.
  rewrite (find_member simd_abi (members s) Hnd 0 f o Hin). reflexivity.
Qed.

(** [padding1] names two members of the header, one in [SceneUniforms]
    and one in [MaterialUniforms]; in each struct it is one member. *)
Lemma offset_of_member_witness :
  NoDup (field_names (members MaterialUniforms))
  /\ offset_of simd_abi MaterialUniforms "padding1" = Some 24.
Proof.
  apply (offset_of_member MaterialUniforms (Field "padding1" Float) 24).
  - simpl. tauto.
  - simpl. tauto.
Defined.

(** ** Sizes against the float data *)

Section Bounds.
Variable A : abi.
Hypothesis sane : Wire.abi_sane A.

Lemma end_from_ge_data (fs : list field) :
  forall cur, cur + data_bytes fs <= end_from A cur fs.
Proof.
  induction fs as [|f fs IH]; intros cur.
  - cbn. lia.
  - change (data_bytes (f :: fs)) with (4 * lanes (ftype f) + data_bytes fs).
    cbn [end_from].
    specialize (IH (align_up cur (alignof A (ftype f)) + sizeof A (ftype f))).
    pose proof (align_up_ge cur _ (proj1 (sane (ftype f)))).
    pose proof (proj2 (sane (ftype f))). lia.
Qed.

Lemma end_from_ge_sum (fs : list field) :
  forall cur, cur + sum_sizes A fs <= end_from A cur fs.
Proof.
  induction fs as [|f fs IH]; intros cur.
  - cbn. lia.
  - change (sum_sizes A (f :: fs))
      with (sizeof A (ftype f) + sum_sizes A fs).
    cbn [end_from].
    specialize (IH (align_up cur (alignof A (ftype f)) + sizeof A (ftype f))).
    pose proof (align_up_ge cur _ (proj1 (sane (ftype f)))). lia.
Qed.

(** When the members end where their sizes alone would make them end,
    there is no gap before any of them. *)
Lemma gap_free_offsets (fs : list field) :
  forall cur,
    end_from A cur fs = cur + sum_sizes A fs ->
    forall i f o,
      nth_error (layout_from A cur fs) i = Some (f, o) ->
      o = cur + sum_sizes A (firstn i fs).
Proof.
  induction fs as [|g fs IH]; intros cur Hend i f o Hi.
  - destruct i; discriminate.
  - cbn [end_from] in Hend.
    pose proof (align_up_ge cur _ (proj1 (sane (ftype g)))) as Hge.
    pose proof (end_from_ge_sum fs
                  (align_up cur (alignof A (ftype g)) + sizeof A (ftype g)))
      as Hsum.
    assert (Hs : sum_sizes A (g :: fs) = sizeof A (ftype g) + sum_sizes A fs)
      by reflexivity.
    assert (Ho : align_up cur (alignof A (ftype g)) = cur) by lia.
    destruct i as [|i]; cbn [layout_from nth_error firstn] in *.
    + inversion Hi; subst. change (sum_sizes A []) with 0. lia.
    + rewrite Ho in *.
      assert (Hs' : forall l, sum_sizes A (g :: l)
                              = sizeof A (ftype g) + sum_sizes A l)
        by reflexivity.
      rewrite Hs'.
      rewrite (IH (cur + sizeof A (ftype g)) ltac:(lia) i f o Hi). lia.
Qed.
End Bounds.

(** X5: whatever sizes and alignments the vector types are given, as long
    as alignments are positive and each type is large enough for its
    floats, no struct is smaller than its float data: 4 bytes for every
    float it declares. *)
Theorem size_at_least_data (A : abi) (s : struct) :
  Wire.abi_sane A ->
  data_bytes (members s) <= struct_size A s.
Proof.
  intros Hsane.
  pose proof (end_from_ge_data A Hsane (members s) 0).
  pose proof (struct_size_ge_end A s). unfold fields_end in *. lia.
Qed.

(** The 320 bytes of float data of [SceneUniforms] in its 368 bytes. *)
Lemma size_at_least_data_witness : 320 <= 368.
Proof.
  apply (size_at_least_data simd_abi SceneUniforms WireFacts.simd_abi_sane).
Defined.

(** ** The structs without a 3-component vector *)

(** X6: the layouts of [CRTUniforms] and of [QuadVertex] rest on the
    sizes of [float] and of [simd_float2] alone: with a 4-byte float and
    an 8-byte [simd_float2] aligned to 4 or to 8, whatever the sizes of
    the other types, the members have the offsets given above, and the
    structs are 64 and 16 bytes. *)
Theorem float2_structs_layout (A : abi) :
  float2_like A ->
  map snd (layout A CRTUniforms)
  = [0; 4; 8; 12; 16; 20; 24; 28; 32; 40; 44; 48; 52; 56; 60]
  /\ struct_size A CRTUniforms = 64
  /\ map snd (layout A QuadVertex) = [0; 8]
  /\ struct_size A QuadVertex = 16.
Proof.
  intros (Hsf & Haf & Hs2 & Ha2).
  unfold layout, struct_size, struct_align, fields_end.
  cbn [members CRTUniforms QuadVertex layout_from end_from fold_right ftype
       map snd].
  rewrite Hsf, Haf, Hs2.
  destruct Ha2 as [E | E]; rewrite E; repeat split; reflexivity.
Qed.

Lemma float2_structs_layout_witness :
  map snd (layout packed_abi CRTUniforms)
  = [0; 4; 8; 12; 16; 20; 24; 28; 32; 40; 44; 48; 52; 56; 60]
  /\ struct_size packed_abi CRTUniforms = 64
  /\ map snd (layout packed_abi QuadVertex) = [0; 8]
  /\ struct_size packed_abi QuadVertex = 16.
Proof.
  apply (float2_structs_layout packed_abi).
  unfold float2_like. cbn. auto.
Defined.

(** X7: [CRTUniforms] and [QuadVertex] have no implicit padding: the
    struct is as large as the sum of the sizes of its members, and each
    member starts exactly where the members declared before it end. *)
Theorem gap_free_structs (s : struct) (i : nat) (f : field) (o : nat) :
  In s [CRTUniforms; QuadVertex] ->
  nth_error (layout simd_abi s) i = Some (f, o) ->
  struct_size simd_abi s = sum_sizes simd_abi (members s)
  /\ o = sum_sizes simd_abi (firstn i (members s)).
Proof.
  intros Hs Hi.
  assert (Hsz : struct_size simd_abi s = sum_sizes simd_abi (members s)
                /\ end_from simd_abi 0 (members s)
                   = 0 + sum_sizes simd_abi (members s)).
  { simpl in Hs. decompose [or] Hs; subst; try contradiction;
      split; reflexivity. }
  destruct Hsz as [Hsz Hend]. split; [exact Hsz|].
  apply (gap_free_offsets simd_abi WireFacts.simd_abi_sane (members s) 0
           Hend i f o Hi).
Qed.

(** [greenTintR], the tenth member of [CRTUniforms], starts after eight
    floats and one [simd_float2]. *)
Lemma gap_free_structs_witness :
  64 = sum_sizes simd_abi (members CRTUniforms)
  /\ 40 = sum_sizes simd_abi (firstn 9 (members CRTUniforms)).
Proof.
  apply (gap_free_structs CRTUniforms 9 (Field "greenTintR" Float) 40).
  - simpl. tauto.
  - reflexivity.
Defined.

(** The other three structs do have implicit padding after their last
    member. *)
Remark tail_paddings :
  map (tail_padding simd_abi) ShaderTypes_h = [8; 12; 0; 0; 12].
Proof. reflexivity. Qed.

(** ** Scalars and 16-byte rows *)

Lemma align_up_16_plus_4 (q : nat) : align_up (q * 16 + 4) 16 = q * 16 + 16.
Proof.
  unfold align_up.
  replace ((q * 16 + 4 + 16 - 1) / 16) with (q + 1); [lia|].
  apply (Nat.div_unique _ _ _ 3); lia.
Qed.

Lemma align_up_16_by_4 (q : nat) : align_up (q * 16) 4 = q * 16.
Proof.
  replace (q * 16) with ((4 * q) * 4) by lia.
  apply align_up_multiple. lia.
Qed.

(** With the sizes of [<simd/simd.h>], a [simd_float3], a [float] and a
    second [simd_float3] declared in a row take a 16-byte row each. *)
Lemma simd_vec3_scalar_vec3 (fs : list field) :
  forall cur i f g h o1 o2 o3,
    nth_error (layout_from simd_abi cur fs) i = Some (f, o1) ->
    nth_error (layout_from simd_abi cur fs) (S i) = Some (g, o2) ->
    nth_error (layout_from simd_abi cur fs) (S (S i)) = Some (h, o3) ->
    ftype f = SimdFloat3 -> ftype g = Float -> ftype h = SimdFloat3 ->
    o2 = o1 + 16 /\ o3 = o1 + 32.
Proof.
  induction fs as [|x fs IH]; intros cur i f g h o1 o2 o3 H1 H2 H3 Hf Hg Hh.
  - destruct i; discriminate.
  - destruct i as [|i].
    + destruct fs as [|y [|z fs]]; try discriminate.
      cbn [layout_from nth_error] in H1, H2, H3.
      inversion H1; inversion H2; inversion H3; subst. clear H1 H2 H3.
      rewrite Hf, Hg, Hh. cbn [alignof sizeof simd_abi].
      destruct (multiple_of_16 (align_up cur 16) (align_up_mod cur 16))
        as [q Hq].
      rewrite Hq.
      replace (q * 16 + 16) with ((q + 1) * 16) by lia.
      rewrite align_up_16_by_4, align_up_16_plus_4. lia.
    + cbn [layout_from nth_error] in H1, H2, H3.
      apply (IH _ i f g h o1 o2 o3 H1 H2 H3 Hf Hg Hh).
Qed.

(** X8: where a struct of the header declares a [float] between two
    [simd_float3] members, each of the three takes a 16-byte row of its
    own: the scalar starts 16 bytes after the first vector and the second
    vector 16 bytes after the scalar, so the scalar does not share the row
    of the vector before it. *)
Theorem scalar_between_vectors (s : struct) (i : nat) (f g h : field)
    (o1 o2 o3 : nat) :
  In s ShaderTypes_h ->
  nth_error (layout simd_abi s) i = Some (f, o1) ->
  nth_error (layout simd_abi s) (S i) = Some (g, o2) ->
  nth_error (layout simd_abi s) (S (S i)) = Some (h, o3) ->
  ftype f = SimdFloat3 -> ftype g = Float -> ftype h = SimdFloat3 ->
  o2 = o1 + 16 /\ o3 = o1 + 32.
Proof.
  intros _. apply (simd_vec3_scalar_vec3 (members s) 0).
Qed.

(** [lightPosition], [ambientIntensity] and [lightColor] in
    [SceneUniforms]. *)
Lemma scalar_between_vectors_witness : 272 = 256 + 16 /\ 288 = 256 + 32.
Proof.
  apply (scalar_between_vectors SceneUniforms 4
           (Field "lightPosition" SimdFloat3)
           (Field "ambientIntensity" Float)
           (Field "lightColor" SimdFloat3) 256 272 288);
    try reflexivity.
  simpl. tauto.
Defined.

Lemma end_from_app (A : abi) (fs gs : list field) :
  forall cur, end_from A cur (fs ++ gs) = end_from A (end_from A cur fs) gs.
Proof.
  induction fs as [|f fs IH]; intros cur; [reflexivity|].
  cbn [app end_from]. apply IH.
Qed.

Lemma fold_max_base (a : field -> nat) (fs : list field) (b : nat) :
  1 <= b ->
  fold_right (fun f m => Nat.max (a f) m) b fs
  = Nat.max (fold_right (fun f m => Nat.max (a f) m) 1 fs) b.
Proof.
  intros Hb. induction fs as [|f fs IH]; cbn [fold_right].
  - lia.
  - rewrite IH. lia.
Qed.

Lemma struct_align_app (A : abi) (n : string) (fs gs : list field) :
  struct_align A (Struct n (fs ++ gs))
  = Nat.max (struct_align A (Struct n fs)) (struct_align A (Struct n gs)).
Proof.
  unfold struct_align. cbn [members]. rewrite fold_right_app.
  apply fold_max_base. apply (struct_align_pos A (Struct n gs)).
Qed.

(** With the sizes of [<simd/simd.h>]: when the members of a 16-byte
    aligned struct end on a multiple of 16, one more [float] member makes
    the struct 16 bytes larger, 12 of them padding after that member. *)
Lemma float_after_full_row (n p : string) (fs : list field) :
  struct_align simd_abi (Struct n fs) = 16 ->
  fields_end simd_abi fs mod 16 = 0 ->
  tail_padding simd_abi (Struct n fs) = 0
  /\ struct_size simd_abi (Struct n (fs ++ [Field p Float]))
     = struct_size simd_abi (Struct n fs) + 16
  /\ tail_padding simd_abi (Struct n (fs ++ [Field p Float])) = 12.
Proof.
  intros Hal Hend.
  destruct (multiple_of_16 _ Hend) as [q Hq].
  assert (Hsz : struct_size simd_abi (Struct n fs) = q * 16).
  { unfold struct_size. rewrite Hal. cbn [members]. rewrite Hq.
    apply align_up_multiple. lia. }
  assert (Hal' : struct_align simd_abi (Struct n (fs ++ [Field p Float])) = 16).
  { rewrite struct_align_app, Hal. reflexivity. }
  assert (Hend' : fields_end simd_abi (fs ++ [Field p Float]) = q * 16 + 4).
  { unfold fields_end in *. rewrite end_from_app, Hq.
    cbn [end_from ftype alignof sizeof simd_abi].
    rewrite align_up_16_by_4. reflexivity. }
  assert (Hsz' : struct_size simd_abi (Struct n (fs ++ [Field p Float]))
                 = q * 16 + 16).
  { unfold struct_size. rewrite Hal'. cbn [members]. rewrite Hend'.
    apply align_up_16_plus_4. }
  unfold tail_padding. cbn [members]. rewrite Hsz, Hsz', Hend', Hq. lia.
Qed.

(** X9: in [SceneUniforms] and in [MaterialUniforms] the last member,
    [padding3], starts a 16-byte row of its own: without it the struct
    ends with its last member, with no padding after it; with it the
    struct is 16 bytes larger and ends with 12 bytes of implicit
    padding. *)
Theorem padding3_takes_a_row (s : struct) :
  In s [SceneUniforms; MaterialUniforms] ->
  members s = (members (without_last s) ++ [Field "padding3" Float])%list
  /\ tail_padding simd_abi (without_last s) = 0
  /\ struct_size simd_abi s = struct_size simd_abi (without_last s) + 16
  /\ tail_padding simd_abi s = 12.
Proof.
  intros Hs.
  assert (H : members s
              = (removelast (members s) ++ [Field "padding3" Float])%list
              /\ struct_align simd_abi (without_last s) = 16
              /\ fields_end simd_abi (removelast (members s)) mod 16 = 0).
  { simpl in Hs. decompose [or] Hs; subst; try contradiction;
      repeat split; reflexivity. }
  destruct H as (Hm & Hal & Hend).
  destruct (float_after_full_row (sname s) "padding3" (removelast (members s))
              Hal Hend) as (T0 & Sz & T12).
  rewrite <- Hm in Sz, T12.
  destruct s as [n fs]. cbn [sname members without_last] in *.
  repeat split; assumption.
Qed.

Lemma padding3_takes_a_row_witness :
  members MaterialUniforms
  = (members (without_last MaterialUniforms) ++ [Field "padding3" Float])%list
  /\ tail_padding simd_abi (without_last MaterialUniforms) = 0
  /\ 48 = 32 + 16
  /\ tail_padding simd_abi MaterialUniforms = 12.
Proof.
  apply (padding3_takes_a_row MaterialUniforms).
  simpl. tauto.
Defined.
